(** * A shallow embedding of the autosend-go client library.

    Files embedded: client.go, email.go, types.go, and the two files of
    the package without a known name: the functional options
    (unnamed/part_000) and [APIError] with its methods (unnamed/part_001).  Integers of Go's [int] and [int64]
    are [Z] (the target is a 64-bit platform); [time.Duration] is [Z]
    nanoseconds; Go strings are [String.string].  Heap objects that the
    code shares through pointers ([*http.Client]) live in an explicit heap,
    a list indexed by location. *)

From Stdlib Require Import String Ascii ZArith List Bool Lia.
Import ListNotations.
Open Scope Z_scope.

(* ------------------------------------------------------------------ *)
(** ** Go values used by the library *)

(** [RateLimitInfo] (types.go). *)
Record RateLimitInfo := mkRateLimitInfo {
  Limit : Z;
  Remaining : Z;
  Reset : Z
}.

(** [APIError] (unnamed/part_001). *)
Record APIError := mkAPIError {
  StatusCode : Z;
  Message : string;
  Errors : list (string * string);        (** [{Field, Message}] *)
  RetryAfter : Z;
  RateLimitInfo_ : option RateLimitInfo   (** nil or a pointer *)
}.

(** Go's [error] values as this library builds them. *)
Inductive GoError : Type :=
| EString (msg : string)                 (** fmt.Errorf without %w *)
| EWrap (prefix : string) (cause : GoError) (** fmt.Errorf("prefix: %w", cause) *)
| EAPI (e : APIError)                    (** *APIError *)
| EExt (msg : string).                   (** an error of a library (json, net/http, io) *)

(** A Go call returning [( *T, error)] or panicking. *)
Inductive result (A : Type) : Type :=
| Ok (a : A)
| Err (e : GoError)
| Panic (msg : string).
Arguments Ok {A} a.
Arguments Err {A} e.
Arguments Panic {A} msg.

(* ------------------------------------------------------------------ *)
(** ** types.go *)

Record EmailAddress := mkEmailAddress {
  Email : string;
  Name : string
}.

Record SendEmailRequest := mkSendEmailRequest {
  To : EmailAddress;
  From : EmailAddress;
  Subject : string;
  HTML : string;
  Text : string;
  TemplateID : string;
  ReplyTo : option EmailAddress;
  UnsubscribeGroupID : string;
  Categories : list string;
  DynamicData : list (string * string);   (** map[string]any, values as JSON text *)
  ScheduledAt : string;
  CampaignName : string;
  Test : bool
}.

Record SendEmailData := mkSendEmailData {
  EmailID : string;
  Status : string;
  QueuedAt : Z                            (** time.Time, seconds from the Unix epoch *)
}.

Record SendEmailResponse := mkSendEmailResponse {
  Success : bool;
  Message_ : string;
  Data : SendEmailData
}.

Record ErrorResponse := mkErrorResponse {
  ER_Success : bool;
  ER_Message : string;
  ER_Errors : list (string * string);
  ER_RetryAfter : Z
}.

(* ------------------------------------------------------------------ *)
(** ** strconv (Go standard library), base 10, 64-bit [int] *)

Inductive NumError := ErrSyntax | ErrRange.

Definition digit_val (c : ascii) : option Z :=
  let n := Z.of_nat (nat_of_ascii c) - 48 in
  if (0 <=? n) && (n <=? 9) then Some n else None.

Definition maxUint64 : Z := 2 ^ 64 - 1.

(** The loop of [strconv.ParseUint(s, 10, 64)] on the characters after [s],
    with the accumulated value [n]. *)
Fixpoint parseUint_loop (s : string) (n : Z) : Z * option NumError :=
  match s with
  | EmptyString => (n, None)
  | String c rest =>
      match digit_val c with
      | None => (0, Some ErrSyntax)
      | Some d =>
          let cutoff := maxUint64 / 10 + 1 in
          let maxVal := maxUint64 in
          if cutoff <=? n then (maxVal, Some ErrRange)
          else
            let n' := n * 10 in
            let n1 := (n' + d) mod 2 ^ 64 in
            if (n1 <? n') || (maxVal <? n1) then (maxVal, Some ErrRange)
            else parseUint_loop rest n1
      end
  end.

Definition ParseUint (s : string) : Z * option NumError :=
  match s with
  | EmptyString => (0, Some ErrSyntax)
  | _ => parseUint_loop s 0
  end.

(** [strconv.ParseInt(s, 10, 64)]. *)
Definition ParseInt (s0 : string) : Z * option NumError :=
  match s0 with
  | EmptyString => (0, Some ErrSyntax)
  | String c rest =>
      let '(neg, s) :=
        if Ascii.eqb c "+"%char then (false, rest)
        else if Ascii.eqb c "-"%char then (true, rest)
        else (false, s0) in
      let '(un, err) := ParseUint s in
      match err with
      | Some ErrSyntax => (0, Some ErrSyntax)
      | _ =>
          let cutoff := 2 ^ 63 in
          if negb neg && (cutoff <=? un) then (cutoff - 1, Some ErrRange)
          else if neg && (cutoff <? un) then (- cutoff, Some ErrRange)
          else ((if neg then - un else un), None)
      end
  end.

(** The fast path of [strconv.Atoi]: the digit loop. *)
Fixpoint atoi_digits (s : string) (n : Z) : option Z :=
  match s with
  | EmptyString => Some n
  | String c rest =>
      match digit_val c with
      | None => None
      | Some d => atoi_digits rest (n * 10 + d)
      end
  end.

(** [strconv.Atoi] with a 64-bit [int]: a fast path for strings of
    length 1..18, [ParseInt(s, 10, 0)] otherwise. *)
Definition Atoi (s0 : string) : Z * option NumError :=
  let sLen := String.length s0 in
  if (0 <? sLen)%nat && (sLen <? 19)%nat then
    match s0 with
    | EmptyString => (0, Some ErrSyntax)
    | String c rest =>
        let sgn := Ascii.eqb c "-"%char || Ascii.eqb c "+"%char in
        let s := if sgn then rest else s0 in
        if sgn && (String.length s <? 1)%nat then (0, Some ErrSyntax)
        else
          match atoi_digits s 0 with
          | None => (0, Some ErrSyntax)
          | Some n => ((if Ascii.eqb c "-"%char then - n else n), None)
          end
    end
  else ParseInt s0.

(* ------------------------------------------------------------------ *)
(** ** net/http headers (Go standard library) *)

(** [http.Header], a map from canonical keys to value lists. *)
Definition Header := list (string * list string).

Definition is_alpha_lower (c : ascii) : bool :=
  let n := nat_of_ascii c in (97 <=? n)%nat && (n <=? 122)%nat.
Definition is_alpha_upper (c : ascii) : bool :=
  let n := nat_of_ascii c in (65 <=? n)%nat && (n <=? 90)%nat.
Definition is_digit (c : ascii) : bool :=
  let n := nat_of_ascii c in (48 <=? n)%nat && (n <=? 57)%nat.

(** [validHeaderFieldByte]: the token characters of RFC 7230. *)
Definition validHeaderFieldByte (c : ascii) : bool :=
  is_alpha_lower c || is_alpha_upper c || is_digit c ||
  existsb (Ascii.eqb c) (list_ascii_of_string "!#$%&'*+-.^_`|~").

Definition to_upper (c : ascii) : ascii :=
  if is_alpha_lower c then ascii_of_nat (nat_of_ascii c - 32) else c.
Definition to_lower (c : ascii) : ascii :=
  if is_alpha_upper c then ascii_of_nat (nat_of_ascii c + 32) else c.

Fixpoint canon_loop (upper : bool) (s : string) : string :=
  match s with
  | EmptyString => EmptyString
  | String c rest =>
      String (if upper then to_upper c else to_lower c)
             (canon_loop (Ascii.eqb c "-"%char) rest)
  end.

Fixpoint string_forallb (f : ascii -> bool) (s : string) : bool :=
  match s with
  | EmptyString => true
  | String c rest => f c && string_forallb f rest
  end.

(** [textproto.CanonicalMIMEHeaderKey]: keys with a byte that is not a
    token character are returned unchanged. *)
Definition CanonicalMIMEHeaderKey (s : string) : string :=
  if string_forallb validHeaderFieldByte s then canon_loop true s else s.

Fixpoint header_lookup (h : Header) (k : string) : option (list string) :=
  match h with
  | [] => None
  | (k', v) :: rest => if String.eqb k' k then Some v else header_lookup rest k
  end.

(** [Header.Get]: the first value under the canonical key, or "". *)
Definition Header_Get (h : Header) (key : string) : string :=
  match header_lookup h (CanonicalMIMEHeaderKey key) with
  | Some (v :: _) => v
  | _ => EmptyString
  end.

(** [Header.Set]: the canonical key now maps to the single value. *)
Definition Header_Set (h : Header) (key value : string) : Header :=
  let k := CanonicalMIMEHeaderKey key in
  (k, [value]) :: filter (fun p => negb (String.eqb (fst p) k)) h.

(** Whether the map has an entry for the canonical key. *)
Definition Header_Has (h : Header) (key : string) : bool :=
  match header_lookup h (CanonicalMIMEHeaderKey key) with
  | Some _ => true
  | None => false
  end.

(* ------------------------------------------------------------------ *)
(** ** fmt: decimal formatting of an [int] ([%d]) *)

Fixpoint digits_of_nat (fuel : nat) (n : nat) (acc : string) : string :=
  match fuel with
  | O => acc
  | S fuel' =>
      let acc' := String (ascii_of_nat (48 + Nat.modulo n 10)) acc in
      if (n <? 10)%nat then acc' else digits_of_nat fuel' (Nat.div n 10) acc'
  end.

Definition format_d (z : Z) : string :=
  let n := Z.to_nat (Z.abs z) in
  let ds := digits_of_nat (S n) n EmptyString in
  if z <? 0 then String "-"%char ds else ds.

(* ------------------------------------------------------------------ *)
(** ** The heap of [*http.Client] objects *)

(** The fields of [http.Client] the library touches; [Transport] stands
    for the remaining fields, which it never writes. *)
Record http_Client := mk_http_Client {
  Transport : option nat;
  Timeout : Z
}.

(** Locations are indices; a pointer is [option loc] ([None] is nil). *)
Definition loc := nat.
Definition heap := list http_Client.

Definition alloc (h : heap) (o : http_Client) : loc * heap :=
  (length h, h ++ [o]).

Fixpoint heap_update (h : heap) (l : loc) (o : http_Client) : heap :=
  match h, l with
  | [], _ => []
  | _ :: rest, O => o :: rest
  | x :: rest, S l' => x :: heap_update rest l' o
  end.

(* ------------------------------------------------------------------ *)
(** ** client.go: construction *)

Definition DefaultBaseURL : string := "https://api.autosend.com/v1".
Definition Second : Z := 1000000000.
Definition DefaultTimeout : Z := 30 * Second.

Record Client := mkClient {
  apiKey : string;
  baseURL : string;
  httpClient : option loc
}.

Record Config := mkConfig {
  APIKey : string;
  BaseURL : string;
  HTTPClient : option loc;
  Timeout_ : Z
}.

Definition NewClient (key : string) (h : heap) : Client * heap :=
  let '(l, h') := alloc h (mk_http_Client None DefaultTimeout) in
  (mkClient key DefaultBaseURL (Some l), h').

Definition NewClientWithConfig (config : Config) (h : heap) : Client * heap :=
  let base := if String.eqb (BaseURL config) "" then DefaultBaseURL
              else BaseURL config in
  let '(hc, h') :=
    match HTTPClient config with
    | None =>
        let timeout := if Timeout_ config =? 0 then DefaultTimeout
                       else Timeout_ config in
        let '(l, h1) := alloc h (mk_http_Client None timeout) in
        (Some l, h1)
    | Some l => (Some l, h)
    end in
  (mkClient (APIKey config) base hc, h').

(* ------------------------------------------------------------------ *)
(** ** unnamed/part_000: functional options *)

(** A [ClientOption] mutates the client under construction and may write
    the heap; [None] is a panic (nil pointer dereference). *)
Definition ClientOption := Client * heap -> option (Client * heap).

Definition WithBaseURL (u : string) : ClientOption :=
  fun '(c, h) => Some (mkClient (apiKey c) u (httpClient c), h).

Definition WithHTTPClient (hc : option loc) : ClientOption :=
  fun '(c, h) => Some (mkClient (apiKey c) (baseURL c) hc, h).

(** [c.httpClient.Timeout = timeout]. *)
Definition WithTimeout (timeout : Z) : ClientOption :=
  fun '(c, h) =>
    match httpClient c with
    | None => None
    | Some l =>
        match nth_error h l with
        | None => None
        | Some o => Some (c, heap_update h l (mk_http_Client (Transport o) timeout))
        end
    end.

Fixpoint apply_opts (opts : list ClientOption) (st : Client * heap)
  : option (Client * heap) :=
  match opts with
  | [] => Some st
  | opt :: rest =>
      match opt st with
      | None => None
      | Some st' => apply_opts rest st'
      end
  end.

Definition NewClientWithOptions (key : string) (opts : list ClientOption)
  (h : heap) : option (Client * heap) :=
  let '(l, h') := alloc h (mk_http_Client None DefaultTimeout) in
  apply_opts opts (mkClient key DefaultBaseURL (Some l), h').

(* ------------------------------------------------------------------ *)
(** ** HTTP exchange and the library functions the code calls *)

(** A [context.Context], seen through what [ctx.Err()] returns. *)
Record Context := mkContext { ctx_Err : option GoError }.

(** An outbound [*http.Request]. *)
Record Request := mkRequest {
  req_ctx : Context;
  req_Method : string;
  req_URL : string;
  req_Body : option string;               (** nil or the JSON bytes *)
  req_Header : Header
}.

(** An [*http.Response]; [resp_Body] is what [io.ReadAll(resp.Body)]
    yields. *)
Record Response := mkResponse {
  resp_StatusCode : Z;
  resp_Header : Header;
  resp_Body : string + GoError
}.

(** The standard-library functions the package calls, as an environment:
    [encoding/json] on the types of types.go, the failure cases of
    [http.NewRequestWithContext], and [( *http.Client).Do] as the
    transport of a given client object. *)
Record Env := mkEnv {
  json_Marshal : SendEmailRequest -> string + GoError;
  json_Unmarshal_SendEmailResponse : string -> SendEmailResponse + GoError;
  json_Unmarshal_ErrorResponse : string -> ErrorResponse + GoError;
  NewRequest_error : Context -> string -> string -> option GoError;
  transport : http_Client -> Request -> Response + GoError
}.

(** The network effect: every request handed to [Do] is appended to a
    log, so that "the transport was invoked" is observable. *)
Definition M (A : Type) : Type := list Request -> A * list Request.

Definition ret {A} (a : A) : M A := fun log => (a, log).
Definition bind {A B} (m : M A) (k : A -> M B) : M B :=
  fun log => let '(a, log') := m log in k a log'.

Notation "x <- m ;; k" := (bind m (fun x => k))
  (at level 61, m at next level, right associativity).

Definition http_Do (E : Env) (o : http_Client) (req : Request)
  : M (Response + GoError) :=
  fun log => (transport E o req, log ++ [req]).

(* ------------------------------------------------------------------ *)
(** ** client.go: the request pipeline and the error classifier *)

(** The headers [doRequest] sets on a fresh request. *)
Definition request_headers (c : Client) (idempotencyKey : string) : Header :=
  let hd := Header_Set [] "Authorization" ("Bearer " ++ apiKey c)%string in
  let hd := Header_Set hd "Content-Type" "application/json" in
  let hd := Header_Set hd "User-Agent" "autosend-go/1.0.0" in
  if String.eqb idempotencyKey "" then hd
  else Header_Set hd "Idempotency-Key" idempotencyKey.

Definition doRequest (E : Env) (c : Client) (h : heap) (ctx : Context)
  (method path : string) (body : option SendEmailRequest)
  (idempotencyKey : string) : M (result Response) :=
  let send (bodyReader : option string) : M (result Response) :=
    let url := (baseURL c ++ path)%string in
    match NewRequest_error E ctx method url with
    | Some err => ret (Err (EWrap "failed to create request" err))
    | None =>
        let req := mkRequest ctx method url bodyReader
                             (request_headers c idempotencyKey) in
        match httpClient c with
        | None => ret (Panic "nil pointer dereference")
        | Some l =>
            match nth_error h l with
            | None => ret (Panic "nil pointer dereference")
            | Some o =>
                r <- http_Do E o req ;;
                match r with
                | inr err => ret (Err (EWrap "request failed" err))
                | inl resp => ret (Ok resp)
                end
            end
        end
    end in
  match body with
  | None => send None
  | Some b =>
      match json_Marshal E b with
      | inr err => ret (Err (EWrap "failed to marshal request body" err))
      | inl jsonBody => send (Some jsonBody)
      end
  end.

(** [info.F, _ = parse(v)] when the header value [v] is not "". *)
Definition parse_field (parse : string -> Z * option NumError)
  (headers : Header) (key : string) : Z :=
  let v := Header_Get headers key in
  if String.eqb v "" then 0 else fst (parse v).

Definition parseRateLimitHeaders (headers : Header) : RateLimitInfo :=
  mkRateLimitInfo
    (parse_field Atoi headers "X-RateLimit-Limit")
    (parse_field Atoi headers "X-RateLimit-Remaining")
    (parse_field ParseInt headers "X-RateLimit-Reset").

Definition handleErrorResponse (E : Env) (resp : Response) : GoError :=
  match resp_Body resp with
  | inr err => EWrap "failed to read error response" err
  | inl body =>
      match json_Unmarshal_ErrorResponse E body with
      | inr _ =>
          EString ("API error (status " ++ format_d (resp_StatusCode resp)
                   ++ "): " ++ body)%string
      | inl errResp =>
          let rateLimitInfo := parseRateLimitHeaders (resp_Header resp) in
          EAPI (mkAPIError (resp_StatusCode resp) (ER_Message errResp)
                  (ER_Errors errResp) (ER_RetryAfter errResp)
                  (Some rateLimitInfo))
      end
  end.

(* ------------------------------------------------------------------ *)
(** ** email.go *)

Definition validateSendEmailRequest (req : option SendEmailRequest)
  : option GoError :=
  match req with
  | None => Some (EString "request cannot be nil")
  | Some r =>
      if String.eqb (Email (To r)) "" then Some (EString "to.email is required")
      else if String.eqb (Email (From r)) "" then
        Some (EString "from.email is required")
      else if String.eqb (TemplateID r) "" && String.eqb (HTML r) ""
              && String.eqb (Text r) "" then
        Some (EString "either templateId or html/text content must be provided")
      else if String.eqb (TemplateID r) "" && String.eqb (Subject r) "" then
        Some (EString "subject is required when not using a template")
      else None
  end.

Definition SendEmailWithIdempotency (E : Env) (c : Client) (h : heap)
  (ctx : Context) (req : option SendEmailRequest) (idempotencyKey : string)
  : M (result SendEmailResponse) :=
  match validateSendEmailRequest req with
  | Some err => ret (Err err)
  | None =>
      r <- doRequest E c h ctx "POST" "/mails/send" req idempotencyKey ;;
      match r with
      | Err err => ret (Err err)
      | Panic m => ret (Panic m)
      | Ok resp =>
          if negb (resp_StatusCode resp =? 200) then
            ret (Err (handleErrorResponse E resp))
          else
            match resp_Body resp with
            | inr err => ret (Err (EWrap "failed to read response body" err))
            | inl body =>
                match json_Unmarshal_SendEmailResponse E body with
                | inr err => ret (Err (EWrap "failed to parse response" err))
                | inl emailResp => ret (Ok emailResp)
                end
            end
      end
  end.

Definition SendEmail (E : Env) (c : Client) (h : heap) (ctx : Context)
  (req : option SendEmailRequest) : M (result SendEmailResponse) :=
  SendEmailWithIdempotency E c h ctx req "".

(* ------------------------------------------------------------------ *)
(** ** unnamed/part_001: [APIError] methods *)

Definition IsRateLimitError (e : APIError) : bool := StatusCode e =? 429.
Definition IsValidationError (e : APIError) : bool := StatusCode e =? 400.
Definition IsAuthenticationError (e : APIError) : bool := StatusCode e =? 401.
Definition IsForbiddenError (e : APIError) : bool := StatusCode e =? 403.
Definition IsServerError (e : APIError) : bool :=
  (500 <=? StatusCode e) && (StatusCode e <? 600).

Definition GetRetryAfter (e : APIError) : Z :=
  if IsRateLimitError e then RetryAfter e else 0.

Definition APIError_Error (e : APIError) : string :=
  match Errors e with
  | _ :: _ =>
      let fields := map (fun fe => (fst fe ++ ": " ++ snd fe)%string) (Errors e) in
      ("autosend API error (status " ++ format_d (StatusCode e) ++ "): "
       ++ Message e ++ " - " ++ String.concat ", " fields)%string
  | [] =>
      if 0 <? RetryAfter e then
        ("autosend API error (status " ++ format_d (StatusCode e) ++ "): "
         ++ Message e ++ " (retry after " ++ format_d (RetryAfter e)
         ++ " seconds)")%string
      else
        ("autosend API error (status " ++ format_d (StatusCode e) ++ "): "
         ++ Message e)%string
  end.

(** [err.Error()]. *)
Fixpoint Error (e : GoError) : string :=
  match e with
  | EString m => m
  | EWrap p cause => (p ++ ": " ++ Error cause)%string
  | EAPI a => APIError_Error a
  | EExt m => m
  end.

(* ------------------------------------------------------------------ *)
(** ** Observations used in the statements *)

(** [errors.As(err, &apiErr)]: follows the [%w] chain to an [*APIError]. *)
Fixpoint errors_As_APIError (e : GoError) : option APIError :=
  match e with
  | EAPI a => Some a
  | EWrap _ cause => errors_As_APIError cause
  | _ => None
  end.

(** The [Timeout] of the [http.Client] a client points to. *)
Definition client_timeout (st : Client * heap) : option Z :=
  let '(c, h) := st in
  match httpClient c with
  | None => None
  | Some l => option_map Timeout (nth_error h l)
  end.

(** The five validation checks as the spec lists them (section 4.1): a
    nil request fails first, then the four field checks in order, each
    with its own message; the first failing check decides. *)
Definition spec_field_checks : list ((SendEmailRequest -> bool) * string) :=
  [ ((fun r => negb (String.eqb (Email (To r)) "")), "to.email is required");
    ((fun r => negb (String.eqb (Email (From r)) "")), "from.email is required");
    ((fun r => negb (String.eqb (TemplateID r) "") || negb (String.eqb (HTML r) "")
               || negb (String.eqb (Text r) "")),
      "either templateId or html/text content must be provided");
    ((fun r => negb (String.eqb (TemplateID r) "") || negb (String.eqb (Subject r) "")),
      "subject is required when not using a template") ]%string.

Fixpoint first_failure (checks : list ((SendEmailRequest -> bool) * string))
  (r : SendEmailRequest) : option string :=
  match checks with
  | [] => None
  | (ok, msg) :: rest => if ok r then first_failure rest r else Some msg
  end.

Definition spec_validate (req : option SendEmailRequest) : option GoError :=
  match req with
  | None => Some (EString "request cannot be nil")
  | Some r => option_map EString (first_failure spec_field_checks r)
  end.

Definition validation_messages : list string :=
  "request cannot be nil"%string :: map snd spec_field_checks.

(* ------------------------------------------------------------------ *)
(** ** unnamed/part_002: the caller [sendEmailWithRetry] *)

(** Go's [int64] wrap-around. *)
Definition toInt64 (z : Z) : Z := (z + 2 ^ 63) mod 2 ^ 64 - 2 ^ 63.

(** [time.Duration(1<<attempt) * time.Second]. *)
Definition backoff (attempt : Z) : Z :=
  toInt64 (toInt64 (Z.shiftl 1 attempt) * Second).

(** What the loop does, in order: a [SendEmail] call at an attempt, or a
    [time.Sleep].  The [fmt.Printf] diagnostics are not modelled. *)
Inductive RetryEvent :=
| CallSendEmail (attempt : Z)
| Sleep (d : Z).

(** [fmt.Errorf("max retries exceeded: %w", lastErr)]; a nil [lastErr]
    prints as [%!w(<nil>)] and wraps nothing. *)
Definition max_retries_exceeded (lastErr : option GoError) : GoError :=
  match lastErr with
  | Some e => EWrap "max retries exceeded" e
  | None => EString "max retries exceeded: %!w(<nil>)"
  end.

(** The [for attempt := 0; attempt < maxRetries; attempt++] loop.  [call i]
    is what [client.SendEmail(ctx, req)] returns at attempt [i] (the
    server's answers); [fuel] bounds the iterations and is never the
    reason the loop stops when it starts at [Z.to_nat maxRetries]. *)
Fixpoint retry_loop (call : Z -> result SendEmailResponse) (maxRetries : Z)
  (attempt : Z) (fuel : nat) (lastErr : option GoError)
  : result SendEmailResponse * list RetryEvent :=
  match fuel with
  | O => (Err (max_retries_exceeded lastErr), [])
  | S fuel' =>
      if attempt <? maxRetries then
        let ev := CallSendEmail attempt in
        match call attempt with
        | Ok resp => (Ok resp, [ev])
        | Panic m => (Panic m, [ev])
        | Err err =>
            let continue_after (sleeps : list RetryEvent) :=
              let '(res, tr) :=
                retry_loop call maxRetries (attempt + 1) fuel' (Some err) in
              (res, ev :: sleeps ++ tr) in
            match errors_As_APIError err with
            | Some apiErr =>
                if IsRateLimitError apiErr then
                  let waitTime := toInt64 (GetRetryAfter apiErr * Second) in
                  let waitTime := if waitTime =? 0 then backoff attempt
                                  else waitTime in
                  continue_after [Sleep waitTime]
                else if IsValidationError apiErr then (Err (EAPI apiErr), [ev])
                else if IsAuthenticationError apiErr then (Err (EAPI apiErr), [ev])
                else if IsServerError apiErr then
                  continue_after [Sleep (backoff attempt)]
                else (Err (EAPI apiErr), [ev])
            | None =>
                continue_after
                  (if attempt <? maxRetries - 1 then [Sleep (backoff attempt)]
                   else [])
            end
        end
      else (Err (max_retries_exceeded lastErr), [])
  end.

Definition sendEmailWithRetry (call : Z -> result SendEmailResponse)
  (maxRetries : Z) : result SendEmailResponse * list RetryEvent :=
  retry_loop call maxRetries 0 (Z.to_nat maxRetries) None.

Definition calls_of (tr : list RetryEvent) : list Z :=
  flat_map (fun ev => match ev with CallSendEmail a => [a] | Sleep _ => [] end) tr.


(** The trace of [n] attempts from [a] that all fail with an error that is
    not an [APIError]: a call per attempt, and after each attempt but the
    last a sleep of [backoff] of that attempt. *)
Fixpoint backoff_trace (a : Z) (n : nat) : list RetryEvent :=
  match n with
  | O => []
  | S k =>
      CallSendEmail a ::
        match k with
        | O => []
        | S _ => Sleep (backoff a) :: backoff_trace (a + 1) k
        end
  end.


(* ------------------------------------------------------------------ *)
(** ** A concrete environment, for evaluating the code on inputs *)

(** A JSON decoder of [ErrorResponse] that agrees with [encoding/json]
    on the bodies used below: "{}" decodes to the zero value, a body
    starting with '<' is a syntax error. *)
Definition demo_Unmarshal_ErrorResponse (body : string)
  : ErrorResponse + GoError :=
  match body with
  | String "<"%char _ =>
      inr (EExt "invalid character '<' looking for beginning of value")
  | _ =>
      if String.eqb body "{}" then inl (mkErrorResponse false "" [] 0)
      else inr (EExt "unexpected end of JSON input")
  end.

(** The zero [time.Time], January 1 of year 1, 00:00:00 UTC, in seconds
    from the Unix epoch. *)
Definition zero_Time : Z := -62135596800.

(** The same for [SendEmailResponse]: "{}" leaves every field at its zero
    value, so [QueuedAt] is the zero [time.Time]. *)
Definition demo_Unmarshal_SendEmailResponse (body : string)
  : SendEmailResponse + GoError :=
  match body with
  | String "<"%char _ =>
      inr (EExt "invalid character '<' looking for beginning of value")
  | _ =>
      if String.eqb body "{}" then
        inl (mkSendEmailResponse false "" (mkSendEmailData "" "" zero_Time))
      else inr (EExt "unexpected end of JSON input")
  end.

(** An environment whose transport answers every request with [resp]. *)
Definition demo_env (resp : Response) : Env :=
  mkEnv (fun _ => inl "{}"%string)
        demo_Unmarshal_SendEmailResponse
        demo_Unmarshal_ErrorResponse
        (fun _ _ _ => None)
        (fun _ _ => inl resp).

Definition demo_ctx : Context := mkContext None.

Definition demo_request : SendEmailRequest :=
  mkSendEmailRequest (mkEmailAddress "customer@example.com" "")
    (mkEmailAddress "hello@mail.example.com" "") "" "" "" "tmpl_1"
    None "" [] [] "" "" false.

Definition html_502 : Response :=
  mkResponse 502 [("X-Ratelimit-Limit"%string, ["50"%string])]
    (inl "<html>bad gateway</html>"%string).

Definition json_429 : Response :=
  mkResponse 429 [("X-Ratelimit-Limit"%string, ["abc"%string])]
    (inl "{}"%string).

Definition caller_heap : heap := [mk_http_Client (Some 7%nat) 0].

Definition caller_client : Client := mkClient "key" DefaultBaseURL (Some 0%nat).

Definition demo_client : Client := fst (NewClient "key" []).

Definition demo_heap : heap := snd (NewClient "key" []).

Definition request_without_to : SendEmailRequest :=
  mkSendEmailRequest (mkEmailAddress "" "")
    (mkEmailAddress "hello@mail.example.com" "") "Hi" "<p>hi</p>" "" ""
    None "" [] [] "" "" false.

Definition ok_200_empty : Response := mkResponse 200 [] (inl "{}"%string).

(* ================================================================== *)

(** Further concrete inputs: a [NewRequest] that fails, a 200 whose body
    cannot be read, a 429 with decimal rate-limit headers, and two outcomes
    of [SendEmail] fed to the retry loop. *)

Definition env_bad_request : Env :=
  mkEnv (fun _ => inl "{}"%string) demo_Unmarshal_SendEmailResponse
        demo_Unmarshal_ErrorResponse
        (fun _ _ _ => Some (EExt "net/http: invalid method"))
        (fun _ _ => inl html_502).

Definition ok_200_unreadable : Response :=
  mkResponse 200 [] (inr (EExt "unexpected EOF")).

Definition spec_429 : Response :=
  mkResponse 429
    [("X-Ratelimit-Limit"%string, ["50"%string]);
     ("X-Ratelimit-Remaining"%string, ["0"%string]);
     ("X-Ratelimit-Reset"%string, ["1700000000"%string])]
    (inl "{}"%string).

Definition invalid_request_outcome : result SendEmailResponse :=
  fst (SendEmail (demo_env html_502) demo_client demo_heap demo_ctx
         (Some request_without_to) []).




(** * Theorems *)

(** ** strconv: a syntax error yields the value 0 *)

Lemma ParseInt_syntax_zero (s : string) :
  snd (ParseInt s) = Some ErrSyntax -> fst (ParseInt s) = 0.
Proof.
  unfold ParseInt. destruct s as [|c rest]; [reflexivity|].
  destruct (_ : bool * string) as [neg s'] eqn:Hs.
  destruct (ParseUint s') as [un [[|]|]]; [reflexivity| |];
    destruct (negb neg && _); try discriminate;
    destruct (neg && _); discriminate.
Qed.

Lemma Atoi_syntax_zero (s : string) :
  snd (Atoi s) = Some ErrSyntax -> fst (Atoi s) = 0.
Proof.
  unfold Atoi. destruct (_ && _); [|apply ParseInt_syntax_zero].
  destruct s as [|c rest]; [reflexivity|].
  destruct (_ && _); [reflexivity|].
  destruct (atoi_digits _ _); [discriminate|reflexivity].
Qed.

(** An out-of-range value is not 0: Go's strconv clamps it. *)
Example Atoi_out_of_range :
  Atoi "99999999999999999999" = (9223372036854775807, Some ErrRange).
Proof. vm_compute. reflexivity. Qed.

Lemma parse_field_zero (parse : string -> Z * option NumError)
  (Hparse : forall s, snd (parse s) = Some ErrSyntax -> fst (parse s) = 0)
  (h : Header) (key : string) :
  (Header_Get h key = ""%string \/
   snd (parse (Header_Get h key)) = Some ErrSyntax) ->
  parse_field parse h key = 0.
Proof.
  unfold parse_field. intros [He|Hs].
  - rewrite He. reflexivity.
  - destruct (String.eqb _ _); [reflexivity|]. apply Hparse, Hs.
Qed.

(** ** C1: the error classifier *)

(** C1 (corrected).  [handleErrorResponse] always returns an error and
    never panics.  The result is an [APIError] carrying the status code
    and the parsed message, field errors and retry-after only when the
    body is read and parses as [ErrorResponse].  When the body does not
    parse the result is a plain error, not an [APIError]: its text is
    "API error (status <code>): " followed by the raw body verbatim.
    When reading the body fails, the result wraps that read error. *)
Theorem handleErrorResponse_outcomes (E : Env) (resp : Response) :
  (forall body errResp,
      resp_Body resp = inl body ->
      json_Unmarshal_ErrorResponse E body = inl errResp ->
      exists a, handleErrorResponse E resp = EAPI a /\
        StatusCode a = resp_StatusCode resp /\
        Message a = ER_Message errResp /\ Errors a = ER_Errors errResp /\
        RetryAfter a = ER_RetryAfter errResp) /\
  (forall body jerr,
      resp_Body resp = inl body ->
      json_Unmarshal_ErrorResponse E body = inr jerr ->
      errors_As_APIError (handleErrorResponse E resp) = None /\
      Error (handleErrorResponse E resp) =
        ("API error (status " ++ format_d (resp_StatusCode resp) ++ "): "
         ++ body)%string) /\
  (forall rerr,
      resp_Body resp = inr rerr ->
      handleErrorResponse E resp = EWrap "failed to read error response" rerr).
Proof.
  unfold handleErrorResponse. split; [|split].
  - intros body errResp Hb Hj. rewrite Hb, Hj.
    eexists. repeat split; reflexivity.
  - intros body jerr Hb Hj. rewrite Hb, Hj. split; reflexivity.
  - intros rerr Hb. rewrite Hb. reflexivity.
Qed.

Lemma handleErrorResponse_outcomes_witness :
  errors_As_APIError (handleErrorResponse (demo_env html_502) html_502) = None /\
  Error (handleErrorResponse (demo_env html_502) html_502) =
    "API error (status 502): <html>bad gateway</html>"%string.
Proof.
  apply (proj1 (proj2 (handleErrorResponse_outcomes (demo_env html_502) html_502))
           "<html>bad gateway</html>"%string
           (EExt "invalid character '<' looking for beginning of value"));
    reflexivity.
Defined.

(** C1 (counterexample).  A 502 response with an HTML body: the result
    is not an [APIError]. *)
Lemma handleErrorResponse_html_not_APIError :
  handleErrorResponse (demo_env html_502) html_502 =
    EString "API error (status 502): <html>bad gateway</html>" /\
  errors_As_APIError (handleErrorResponse (demo_env html_502) html_502) = None.
Proof. split; vm_compute; reflexivity. Qed.

(** ** C2: rate-limit headers *)

(** C2 (corrected).  When the body of the response is read and parses as
    [ErrorResponse], the classifier's [APIError] carries the
    [RateLimitInfo] parsed from the three headers, and a header that is
    absent, empty or not a decimal integer gives 0 for its field.  When
    the body does not parse, the headers are not read: the result is the
    plain error "API error (status <code>): <body>", not an [APIError].
    When the body cannot be read, the result is the read error wrapped as
    "failed to read error response": nothing of the response is attached,
    and errors.As finds an [APIError] in it only if the read error itself
    holds one. *)
Theorem handleErrorResponse_rate_limit (E : Env) (resp : Response) :
  (forall body errResp,
     resp_Body resp = inl body ->
     json_Unmarshal_ErrorResponse E body = inl errResp ->
     exists a info,
       handleErrorResponse E resp = EAPI a /\
       RateLimitInfo_ a = Some info /\
       info = parseRateLimitHeaders (resp_Header resp) /\
       (let v := Header_Get (resp_Header resp) "X-RateLimit-Limit" in
        v = ""%string \/ snd (Atoi v) = Some ErrSyntax -> Limit info = 0) /\
       (let v := Header_Get (resp_Header resp) "X-RateLimit-Remaining" in
        v = ""%string \/ snd (Atoi v) = Some ErrSyntax -> Remaining info = 0) /\
       (let v := Header_Get (resp_Header resp) "X-RateLimit-Reset" in
        v = ""%string \/ snd (ParseInt v) = Some ErrSyntax -> Reset info = 0)) /\
  (forall body jerr,
     resp_Body resp = inl body ->
     json_Unmarshal_ErrorResponse E body = inr jerr ->
     handleErrorResponse E resp =
       EString ("API error (status " ++ format_d (resp_StatusCode resp) ++ "): "
                ++ body)%string /\
     errors_As_APIError (handleErrorResponse E resp) = None) /\
  (forall rerr,
     resp_Body resp = inr rerr ->
     handleErrorResponse E resp = EWrap "failed to read error response" rerr /\
     errors_As_APIError (handleErrorResponse E resp) = errors_As_APIError rerr).
Proof.
  unfold handleErrorResponse. split; [|split].
  - intros body errResp Hb Hj. rewrite Hb, Hj.
    do 2 eexists. split; [reflexivity|]. split; [reflexivity|].
    split; [reflexivity|]. cbv zeta. simpl.
    split; [|split]; apply parse_field_zero;
      auto using Atoi_syntax_zero, ParseInt_syntax_zero.
  - intros body jerr Hb Hj. rewrite Hb, Hj. split; reflexivity.
  - intros rerr Hb. rewrite Hb. split; reflexivity.
Qed.

Lemma handleErrorResponse_rate_limit_witness :
  (exists a info,
     handleErrorResponse (demo_env json_429) json_429 = EAPI a /\
     RateLimitInfo_ a = Some info /\
     info = parseRateLimitHeaders (resp_Header json_429) /\
     (let v := Header_Get (resp_Header json_429) "X-RateLimit-Limit" in
      v = ""%string \/ snd (Atoi v) = Some ErrSyntax -> Limit info = 0) /\
     (let v := Header_Get (resp_Header json_429) "X-RateLimit-Remaining" in
      v = ""%string \/ snd (Atoi v) = Some ErrSyntax -> Remaining info = 0) /\
     (let v := Header_Get (resp_Header json_429) "X-RateLimit-Reset" in
      v = ""%string \/ snd (ParseInt v) = Some ErrSyntax -> Reset info = 0)) /\
  (handleErrorResponse (demo_env html_502) html_502 =
     EString "API error (status 502): <html>bad gateway</html>" /\
   errors_As_APIError (handleErrorResponse (demo_env html_502) html_502) = None).
Proof.
  split.
  - apply (proj1 (handleErrorResponse_rate_limit (demo_env json_429) json_429)
             "{}"%string (mkErrorResponse false "" [] 0)); reflexivity.
  - apply (proj1 (proj2 (handleErrorResponse_rate_limit (demo_env html_502) html_502))
             "<html>bad gateway</html>"%string
             (EExt "invalid character '<' looking for beginning of value"));
      reflexivity.
Defined.

(** C2 (counterexample).  A 502 response with an HTML body and the header
    X-RateLimit-Limit: 50: the result is no [APIError], so no
    [RateLimitInfo] is attached. *)
Lemma html_502_no_rate_limit_info :
  Header_Get (resp_Header html_502) "X-RateLimit-Limit" = "50"%string /\
  errors_As_APIError (handleErrorResponse (demo_env html_502) html_502) = None.
Proof. split; vm_compute; reflexivity. Qed.

(** ** C3: construction from a [Config] *)

(** C3 (corrected).  [NewClientWithConfig] keeps the API key, replaces an
    empty [BaseURL] by the default and keeps a non-empty one.  With a nil
    [HTTPClient] it allocates a new [http.Client] whose timeout is
    [Timeout], or the default when [Timeout] is 0, and leaves the old heap
    objects as they were.  With a supplied [HTTPClient] it uses that
    object unchanged: [Timeout] is ignored and the heap is not touched. *)
Theorem NewClientWithConfig_fields (config : Config) (h : heap) :
  let '(c, h') := NewClientWithConfig config h in
  apiKey c = APIKey config /\
  baseURL c = (if String.eqb (BaseURL config) "" then DefaultBaseURL
               else BaseURL config) /\
  match HTTPClient config with
  | Some l => httpClient c = Some l /\ h' = h
  | None =>
      client_timeout (c, h') =
        Some (if Timeout_ config =? 0 then DefaultTimeout else Timeout_ config) /\
      firstn (length h) h' = h
  end.
Proof.
  unfold NewClientWithConfig. destruct (HTTPClient config) as [l|] eqn:Hc.
  - simpl. repeat split.
  - unfold alloc. simpl. repeat split.
    + rewrite nth_error_app2, Nat.sub_diag by lia. reflexivity.
    + rewrite firstn_app, Nat.sub_diag, firstn_all. simpl. apply app_nil_r.
Qed.

(** C3 (counterexample).  A supplied [http.Client] with timeout 0 and an
    explicit [Timeout] of 5 s: the client used for requests keeps the
    timeout 0. *)
Lemma NewClientWithConfig_HTTPClient_ignores_Timeout :
  client_timeout
    (NewClientWithConfig (mkConfig "key" "" (Some 0%nat) (5 * Second))
       [mk_http_Client None 0]) = Some 0 /\
  client_timeout
    (NewClientWithConfig (mkConfig "key" "" (Some 0%nat) (5 * Second))
       [mk_http_Client None 0]) <> Some (5 * Second).
Proof. split; vm_compute; [reflexivity | discriminate]. Qed.

(** ** C4: validation *)

Lemma validateSendEmailRequest_eq_spec (req : option SendEmailRequest) :
  validateSendEmailRequest req = spec_validate req.
Proof.
  destruct req as [r|]; [|reflexivity]. simpl.
  destruct (String.eqb (Email (To r)) ""); [reflexivity|]. simpl.
  destruct (String.eqb (Email (From r)) ""); [reflexivity|]. simpl.
  destruct (String.eqb (TemplateID r) ""), (String.eqb (HTML r) ""),
           (String.eqb (Text r) ""), (String.eqb (Subject r) "");
    reflexivity.
Qed.

(** C4.  [validateSendEmailRequest] is the spec's five checks in order
    with the first failure deciding (a nil request, then [to.email],
    [from.email], content, subject without a template); the five
    messages are distinct; and a request with non-empty [to.email],
    [from.email] and [templateId] passes, whatever its [html], [text]
    and [subject]. *)
Theorem validateSendEmailRequest_checks :
  (forall req, validateSendEmailRequest req = spec_validate req) /\
  NoDup validation_messages /\
  (forall r, Email (To r) <> ""%string -> Email (From r) <> ""%string ->
     TemplateID r <> ""%string -> validateSendEmailRequest (Some r) = None).
Proof.
  split; [exact validateSendEmailRequest_eq_spec|]. split.
  - unfold validation_messages. simpl.
    repeat constructor; simpl; intuition discriminate.
  - intros r Hto Hfrom Htpl. simpl.
    apply String.eqb_neq in Hto, Hfrom, Htpl.
    rewrite Hto, Hfrom, Htpl. reflexivity.
Qed.

Lemma validateSendEmailRequest_checks_witness :
  validateSendEmailRequest (Some demo_request) = None.
Proof.
  apply (proj2 (proj2 validateSendEmailRequest_checks) demo_request);
    simpl; discriminate.
Defined.

(** ** C7: the [APIError] predicates *)

(** C7.  Each predicate depends on [StatusCode] alone: 429, 400, 401, 403
    and 500..599; [GetRetryAfter] is [RetryAfter] for a rate-limit error
    and 0 otherwise. *)
Theorem APIError_predicates (e : APIError) :
  (IsRateLimitError e = true <-> StatusCode e = 429) /\
  (IsValidationError e = true <-> StatusCode e = 400) /\
  (IsAuthenticationError e = true <-> StatusCode e = 401) /\
  (IsForbiddenError e = true <-> StatusCode e = 403) /\
  (IsServerError e = true <-> 500 <= StatusCode e < 600) /\
  (forall e', StatusCode e' = StatusCode e ->
     IsRateLimitError e' = IsRateLimitError e /\
     IsValidationError e' = IsValidationError e /\
     IsAuthenticationError e' = IsAuthenticationError e /\
     IsForbiddenError e' = IsForbiddenError e /\
     IsServerError e' = IsServerError e) /\
  GetRetryAfter e = (if IsRateLimitError e then RetryAfter e else 0) /\
  (IsRateLimitError e = false -> GetRetryAfter e = 0).
Proof.
  unfold GetRetryAfter, IsRateLimitError, IsValidationError,
    IsAuthenticationError, IsForbiddenError, IsServerError.
  split; [apply Z.eqb_eq|]. split; [apply Z.eqb_eq|].
  split; [apply Z.eqb_eq|]. split; [apply Z.eqb_eq|].
  split; [rewrite andb_true_iff, Z.leb_le, Z.ltb_lt; lia|].
  split; [intros e' He'; rewrite He'; repeat split|].
  split; [reflexivity|].
  intros Hr. rewrite Hr. reflexivity.
Qed.

Lemma APIError_predicates_witness :
  GetRetryAfter (mkAPIError 503 "busy" [] 7 None) = 0.
Proof.
  apply (proj2 (proj2 (proj2 (proj2 (proj2 (proj2 (proj2
           (APIError_predicates (mkAPIError 503 "busy" [] 7 None))))))))).
  reflexivity.
Defined.

(** ** The heap *)

Lemma heap_update_length (h : heap) (l : loc) (o : http_Client) :
  length (heap_update h l o) = length h.
Proof.
  revert l. induction h as [|x rest IH]; intros [|l']; simpl; auto.
Qed.

Lemma heap_update_same (h : heap) (l : loc) (o : http_Client) :
  (l < length h)%nat -> nth_error (heap_update h l o) l = Some o.
Proof.
  revert l. induction h as [|x rest IH]; intros [|l'] Hl; simpl in *;
    try lia; auto.
  apply IH. lia.
Qed.

Lemma heap_update_other (h : heap) (l l' : loc) (o : http_Client) :
  l' <> l -> nth_error (heap_update h l o) l' = nth_error h l'.
Proof.
  revert l l'. induction h as [|x rest IH]; intros [|l] [|l'] Hne;
    simpl; auto; try congruence.
Qed.

(** ** C10: [WithTimeout] *)

(** C10.  [WithTimeout t] on a client holding the [http.Client] at [l]
    writes [t] into the [Timeout] of that object, keeps its other fields,
    leaves the client ([apiKey], [baseURL], the pointer) and every other
    heap object as they were.  So [NewClientWithOptions] with
    [WithHTTPClient hc] then [WithTimeout t] returns a client pointing to
    [hc], whose object now has timeout [t]. *)
Theorem WithTimeout_in_place (c : Client) (h : heap) (l : loc)
  (o : http_Client) (t : Z) :
  httpClient c = Some l -> nth_error h l = Some o ->
  (exists h', WithTimeout t (c, h) = Some (c, h') /\
     nth_error h' l = Some (mk_http_Client (Transport o) t) /\
     length h' = length h /\
     (forall l', l' <> l -> nth_error h' l' = nth_error h l')) /\
  (forall key,
     exists h', NewClientWithOptions key [WithHTTPClient (Some l); WithTimeout t] h
                = Some (mkClient key DefaultBaseURL (Some l), h') /\
     nth_error h' l = Some (mk_http_Client (Transport o) t) /\
     length h' = S (length h)).
Proof.
  intros Hc Ho.
  assert (Hl : (l < length h)%nat) by (apply nth_error_Some; congruence).
  split.
  - exists (heap_update h l (mk_http_Client (Transport o) t)).
    unfold WithTimeout. rewrite Hc, Ho. split; [reflexivity|].
    split; [apply heap_update_same; exact Hl|].
    split; [apply heap_update_length|].
    intros l' Hne. apply heap_update_other, Hne.
  - intros key.
    exists (heap_update (h ++ [mk_http_Client None DefaultTimeout]) l
              (mk_http_Client (Transport o) t)).
    unfold NewClientWithOptions, alloc. simpl.
    rewrite nth_error_app1 by exact Hl. rewrite Ho.
    split; [reflexivity|]. split.
    + apply heap_update_same. rewrite length_app. lia.
    + rewrite heap_update_length, length_app. simpl. lia.
Qed.

Lemma WithTimeout_in_place_witness :
  exists h', NewClientWithOptions "key" [WithHTTPClient (Some 0%nat);
                                         WithTimeout (5 * Second)] caller_heap
             = Some (mkClient "key" DefaultBaseURL (Some 0%nat), h') /\
    nth_error h' 0%nat = Some (mk_http_Client (Some 7%nat) (5 * Second)) /\
    length h' = 2%nat.
Proof.
  refine (proj2 (WithTimeout_in_place caller_client caller_heap 0%nat
                   (mk_http_Client (Some 7%nat) 0) (5 * Second) _ _) "key"%string);
    reflexivity.
Defined.

(** ** The request pipeline *)

(** [doRequest] hands at most one request to the transport, built with
    [request_headers]; it can fail only with its three wrapped errors or
    a panic. *)
Lemma doRequest_shape (E : Env) (c : Client) (h : heap) (ctx : Context)
  (method path : string) (body : option SendEmailRequest) (key : string)
  (log : list Request) :
  let '(res, log') := doRequest E c h ctx method path body key log in
  (log' = log \/
   exists r, log' = log ++ [r] /\ req_Header r = request_headers c key) /\
  (forall e, res = Err e ->
     exists p cause, e = EWrap p cause /\
       (p = "failed to marshal request body" \/ p = "failed to create request" \/
        p = "request failed")%string).
Proof.
  unfold doRequest, bind, http_Do, ret.
  destruct body as [b|]; [destruct (json_Marshal E b) as [j|err]|].
  all: try (split; [left; reflexivity|];
            intros e He; injection He as <-; do 2 eexists; split;
            [reflexivity | auto]).
  all: destruct (NewRequest_error E ctx method _) as [err|].
  all: try (split; [left; reflexivity|];
            intros e He; injection He as <-; do 2 eexists; split;
            [reflexivity | auto]).
  all: destruct (httpClient c) as [l|];
       [destruct (nth_error h l) as [o|] |].
  all: try (split; [left; reflexivity | discriminate]).
  all: destruct (transport E o _) as [resp|err].
  all: (split; [right; eexists; split; reflexivity |]).
  all: try discriminate.
  all: intros e He; injection He as <-; do 2 eexists; split;
       [reflexivity | auto].
Qed.

(** The headers [doRequest] sets. *)
Lemma request_headers_get (c : Client) (key : string) :
  Header_Has (request_headers c key) "Idempotency-Key" =
    negb (String.eqb key "") /\
  (key <> ""%string ->
     Header_Get (request_headers c key) "Idempotency-Key" = key) /\
  Header_Get (request_headers c key) "Authorization" =
    ("Bearer " ++ apiKey c)%string /\
  Header_Get (request_headers c key) "Content-Type" = "application/json"%string /\
  Header_Get (request_headers c key) "User-Agent" = "autosend-go/1.0.0"%string.
Proof.
  unfold request_headers.
  destruct (String.eqb key "") eqn:Hk.
  - apply String.eqb_eq in Hk. subst key.
    repeat split.
  - repeat split.
Qed.

(** The log of [SendEmailWithIdempotency] is the log of its [doRequest]
    call when the request is valid, and unchanged otherwise. *)
Lemma SendEmailWithIdempotency_log (E : Env) (c : Client) (h : heap)
  (ctx : Context) (req : option SendEmailRequest) (key : string)
  (log : list Request) :
  snd (SendEmailWithIdempotency E c h ctx req key log) =
  match validateSendEmailRequest req with
  | Some _ => log
  | None => snd (doRequest E c h ctx "POST" "/mails/send" req key log)
  end.
Proof.
  unfold SendEmailWithIdempotency.
  destruct (validateSendEmailRequest req); [reflexivity|].
  unfold bind.
  destruct (doRequest E c h ctx "POST" "/mails/send" req key log)
    as [[resp|err|m] log'].
  - simpl. destruct (negb _); [reflexivity|].
    destruct (resp_Body resp) as [body|err]; [|reflexivity].
    destruct (json_Unmarshal_SendEmailResponse E body); reflexivity.
  - reflexivity.
  - reflexivity.
Qed.

(** What [SendEmailWithIdempotency] does once [doRequest] returned a
    response. *)
Lemma SendEmailWithIdempotency_response (E : Env) (c : Client) (h : heap)
  (ctx : Context) (req : option SendEmailRequest) (key : string)
  (log log1 : list Request) (resp : Response) :
  validateSendEmailRequest req = None ->
  doRequest E c h ctx "POST" "/mails/send" req key log = (Ok resp, log1) ->
  SendEmailWithIdempotency E c h ctx req key log =
  (if negb (resp_StatusCode resp =? 200) then
     (Err (handleErrorResponse E resp), log1)
   else
     match resp_Body resp with
     | inr err => (Err (EWrap "failed to read response body" err), log1)
     | inl body =>
         match json_Unmarshal_SendEmailResponse E body with
         | inr err => (Err (EWrap "failed to parse response" err), log1)
         | inl emailResp => (Ok emailResp, log1)
         end
     end).
Proof.
  intros Hv Hd. unfold SendEmailWithIdempotency. rewrite Hv.
  unfold bind. rewrite Hd.
  destruct (negb _); [reflexivity|].
  destruct (resp_Body resp) as [body|err]; [|reflexivity].
  destruct (json_Unmarshal_SendEmailResponse E body); reflexivity.
Qed.

(** C5.  Status 200 is the only way to a [SendEmailResponse]: a success
    comes from a response of status 200; any other status gives the
    classifier's error; a 200 response whose body does not decode gives
    the error "failed to parse response", which is none of the validation
    errors, none of the errors of [doRequest] (marshalling, request
    construction, transport) and no result of the classifier. *)
Theorem SendEmailWithIdempotency_status (E : Env) (c : Client) (h : heap)
  (ctx : Context) (req : option SendEmailRequest) (key : string)
  (log : list Request) :
  (forall r log', SendEmailWithIdempotency E c h ctx req key log = (Ok r, log') ->
     exists resp, doRequest E c h ctx "POST" "/mails/send" req key log =
                  (Ok resp, log') /\ resp_StatusCode resp = 200) /\
  (forall resp log1,
     validateSendEmailRequest req = None ->
     doRequest E c h ctx "POST" "/mails/send" req key log = (Ok resp, log1) ->
     resp_StatusCode resp <> 200 ->
     SendEmailWithIdempotency E c h ctx req key log =
       (Err (handleErrorResponse E resp), log1)) /\
  (forall resp log1 body jerr,
     validateSendEmailRequest req = None ->
     doRequest E c h ctx "POST" "/mails/send" req key log = (Ok resp, log1) ->
     resp_StatusCode resp = 200 -> resp_Body resp = inl body ->
     json_Unmarshal_SendEmailResponse E body = inr jerr ->
     SendEmailWithIdempotency E c h ctx req key log =
       (Err (EWrap "failed to parse response" jerr), log1)) /\
  (forall jerr,
     (forall req', validateSendEmailRequest req' <>
                   Some (EWrap "failed to parse response" jerr)) /\
     (forall E' resp', handleErrorResponse E' resp' <>
                       EWrap "failed to parse response" jerr) /\
     (forall E' c' h' ctx' m p b k l res l',
        doRequest E' c' h' ctx' m p b k l = (res, l') ->
        res <> Err (EWrap "failed to parse response" jerr))).
Proof.
  split; [|split; [|split]].
  - intros r log' Hs.
    destruct (validateSendEmailRequest req) eqn:Hv.
    + unfold SendEmailWithIdempotency in Hs. rewrite Hv in Hs. discriminate.
    + destruct (doRequest E c h ctx "POST" "/mails/send" req key log)
        as [[resp|err|m] log1] eqn:Hd.
      * rewrite (SendEmailWithIdempotency_response _ _ _ _ _ _ _ _ _ Hv Hd) in Hs.
        exists resp.
        destruct (resp_StatusCode resp =? 200) eqn:Hst; simpl in Hs;
          [|discriminate].
        apply Z.eqb_eq in Hst.
        destruct (resp_Body resp) as [body|err]; [|discriminate].
        destruct (json_Unmarshal_SendEmailResponse E body); [|discriminate].
        injection Hs as _ <-. split; [reflexivity | exact Hst].
      * unfold SendEmailWithIdempotency in Hs. rewrite Hv in Hs.
        unfold bind in Hs. rewrite Hd in Hs. discriminate.
      * unfold SendEmailWithIdempotency in Hs. rewrite Hv in Hs.
        unfold bind in Hs. rewrite Hd in Hs. discriminate.
  - intros resp log1 Hv Hd Hst.
    rewrite (SendEmailWithIdempotency_response _ _ _ _ _ _ _ _ _ Hv Hd).
    apply Z.eqb_neq in Hst. rewrite Hst. reflexivity.
  - intros resp log1 body jerr Hv Hd Hst Hb Hj.
    rewrite (SendEmailWithIdempotency_response _ _ _ _ _ _ _ _ _ Hv Hd).
    rewrite Hst, Hb, Hj. reflexivity.
  - intros jerr. split; [|split].
    + intros [r|]; simpl; [|discriminate].
      repeat (destruct (_ : bool); [discriminate|]). discriminate.
    + intros E' resp'. unfold handleErrorResponse.
      destruct (resp_Body resp'); [|discriminate].
      destruct (json_Unmarshal_ErrorResponse E' _); discriminate.
    + intros E' c' h' ctx' m p b k l res l' Hd He. subst res.
      pose proof (doRequest_shape E' c' h' ctx' m p b k l) as Hs.
      rewrite Hd in Hs. destruct Hs as [_ Hs].
      destruct (Hs _ eq_refl) as (p' & cause & Heq & Hp).
      injection Heq as <- _.
      destruct Hp as [Hp|[Hp|Hp]]; discriminate Hp.
Qed.

Lemma SendEmailWithIdempotency_status_witness :
  fst (SendEmailWithIdempotency (demo_env html_502) demo_client demo_heap
         demo_ctx (Some demo_request) "" []) =
  Err (handleErrorResponse (demo_env html_502) html_502).
Proof.
  rewrite (proj1 (proj2 (SendEmailWithIdempotency_status (demo_env html_502)
             demo_client demo_heap demo_ctx (Some demo_request) "" []))
             html_502 (snd (doRequest (demo_env html_502) demo_client demo_heap
                              demo_ctx "POST" "/mails/send" (Some demo_request)
                              "" []))).
  - reflexivity.
  - reflexivity.
  - vm_compute. reflexivity.
  - vm_compute. discriminate.
Defined.

(** ** C6: validation comes before the network *)

(** C6.  For a request that fails validation, [SendEmailWithIdempotency]
    and [SendEmail] return the validation error and hand no request to
    the transport: the log of transport calls is unchanged, whatever the
    environment. *)
Theorem SendEmail_validation_before_network (E : Env) (c : Client) (h : heap)
  (ctx : Context) (req : option SendEmailRequest) (key : string)
  (log : list Request) (err : GoError) :
  validateSendEmailRequest req = Some err ->
  SendEmailWithIdempotency E c h ctx req key log = (Err err, log) /\
  SendEmail E c h ctx req log = (Err err, log).
Proof.
  intros Hv. unfold SendEmail, SendEmailWithIdempotency.
  rewrite Hv. split; reflexivity.
Qed.

Lemma SendEmail_validation_before_network_witness :
  SendEmail (demo_env html_502) demo_client demo_heap demo_ctx
    (Some request_without_to) [] =
  (Err (EString "to.email is required"), []).
Proof.
  apply (SendEmail_validation_before_network (demo_env html_502) demo_client
           demo_heap demo_ctx (Some request_without_to) "" []
           (EString "to.email is required")).
  reflexivity.
Defined.

(** ** C8: the headers of the outbound request *)

(** C8.  Every request [doRequest] hands to the transport has the
    Idempotency-Key header exactly when the key is not empty (with the key
    as its value), and always the Authorization, Content-Type and
    User-Agent headers; so no request sent by [SendEmail] has an
    Idempotency-Key header. *)
Theorem doRequest_headers (E : Env) (c : Client) (h : heap) (ctx : Context)
  (log : list Request) :
  (forall method path body key res log',
     doRequest E c h ctx method path body key log = (res, log') ->
     log' = log \/
     exists r, log' = log ++ [r] /\
       Header_Has (req_Header r) "Idempotency-Key" = negb (String.eqb key "") /\
       (key <> ""%string -> Header_Get (req_Header r) "Idempotency-Key" = key) /\
       Header_Get (req_Header r) "Authorization" = ("Bearer " ++ apiKey c)%string /\
       Header_Get (req_Header r) "Content-Type" = "application/json"%string /\
       Header_Get (req_Header r) "User-Agent" = "autosend-go/1.0.0"%string) /\
  (forall req res log',
     SendEmail E c h ctx req log = (res, log') ->
     log' = log \/
     exists r, log' = log ++ [r] /\
       Header_Has (req_Header r) "Idempotency-Key" = false).
Proof.
  assert (Hdo : forall method path body key res log',
     doRequest E c h ctx method path body key log = (res, log') ->
     log' = log \/
     exists r, log' = log ++ [r] /\ req_Header r = request_headers c key).
  { intros method path body key res log' Hd.
    pose proof (doRequest_shape E c h ctx method path body key log) as Hs.
    rewrite Hd in Hs. exact (proj1 Hs). }
  split.
  - intros method path body key res log' Hd.
    destruct (Hdo _ _ _ _ _ _ Hd) as [Heq|(r & Heq & Hr)]; [left; exact Heq|].
    right. exists r. rewrite Hr. split; [exact Heq|].
    apply request_headers_get.
  - intros req res log' Hs.
    pose proof (SendEmailWithIdempotency_log E c h ctx req "" log) as Hl.
    unfold SendEmail in Hs. rewrite Hs in Hl. simpl in Hl.
    destruct (validateSendEmailRequest req); [left; exact Hl|].
    destruct (doRequest E c h ctx "POST" "/mails/send" req "" log)
      as [res' log''] eqn:Hd.
    simpl in Hl. subst log''.
    destruct (Hdo _ _ _ _ _ _ Hd) as [Heq|(r & Heq & Hr)]; [left; exact Heq|].
    right. exists r. rewrite Hr. split; [exact Heq|].
    apply (proj1 (request_headers_get c "")).
Qed.

Lemma doRequest_headers_witness :
  exists r,
    snd (doRequest (demo_env html_502) demo_client demo_heap demo_ctx
           "POST" "/mails/send" (Some demo_request) "idem-1" []) = [] ++ [r] /\
    Header_Has (req_Header r) "Idempotency-Key" = true.
Proof.
  destruct (proj1 (doRequest_headers (demo_env html_502) demo_client demo_heap
                     demo_ctx [])
              "POST"%string "/mails/send"%string (Some demo_request)
              "idem-1"%string _ _ (surjective_pairing _))
    as [H|(r & Hl & Hh & _)].
  - vm_compute in H. discriminate H.
  - exists r. split; [exact Hl|]. rewrite Hh. reflexivity.
Defined.

(** ** C9: a decodable 200 body is returned as it is *)

(** C9.  For a valid request whose exchange returns status 200 with a
    body that decodes to [r], [SendEmailWithIdempotency] returns [r] and
    no error, whatever [r]'s [Success] and [Message] are. *)
Theorem SendEmailWithIdempotency_200_decoded (E : Env) (c : Client) (h : heap)
  (ctx : Context) (req : option SendEmailRequest) (key : string)
  (log log1 : list Request) (resp : Response) (body : string)
  (r : SendEmailResponse) :
  validateSendEmailRequest req = None ->
  doRequest E c h ctx "POST" "/mails/send" req key log = (Ok resp, log1) ->
  resp_StatusCode resp = 200 ->
  resp_Body resp = inl body ->
  json_Unmarshal_SendEmailResponse E body = inl r ->
  SendEmailWithIdempotency E c h ctx req key log = (Ok r, log1).
Proof.
  intros Hv Hd Hst Hb Hj.
  rewrite (SendEmailWithIdempotency_response _ _ _ _ _ _ _ _ _ Hv Hd).
  rewrite Hst, Hb, Hj. reflexivity.
Qed.

(** The body "{}" decodes to a response with [Success = false]; the call
    still succeeds. *)
Lemma SendEmailWithIdempotency_200_decoded_witness :
  fst (SendEmailWithIdempotency (demo_env ok_200_empty) demo_client demo_heap
         demo_ctx (Some demo_request) "" []) =
  Ok (mkSendEmailResponse false "" (mkSendEmailData "" "" zero_Time)).
Proof.
  rewrite (SendEmailWithIdempotency_200_decoded (demo_env ok_200_empty)
             demo_client demo_heap demo_ctx (Some demo_request) "" []
             (snd (doRequest (demo_env ok_200_empty) demo_client demo_heap
                     demo_ctx "POST" "/mails/send" (Some demo_request) "" []))
             ok_200_empty "{}"%string
             (mkSendEmailResponse false "" (mkSendEmailData "" "" zero_Time))).
  - reflexivity.
  - reflexivity.
  - vm_compute. reflexivity.
  - reflexivity.
  - reflexivity.
  - reflexivity.
Defined.

(* ================================================================== *)
(** * Further properties of the code *)

(** ** Construction *)

(** [NewClient key], [NewClientWithConfig] with only the key set, and
    [NewClientWithOptions key] with no option build the same client:
    the default base URL and a fresh [http.Client] with the default
    timeout. *)
Theorem construction_modes_agree (key : string) (h : heap) :
  NewClientWithConfig (mkConfig key "" None 0) h = NewClient key h /\
  NewClientWithOptions key [] h = Some (NewClient key h) /\
  client_timeout (NewClient key h) = Some DefaultTimeout.
Proof.
  split; [reflexivity|]. split; [reflexivity|].
  unfold NewClient, alloc. simpl.
  rewrite nth_error_app2, Nat.sub_diag by lia. reflexivity.
Qed.

Lemma apply_opts_app (o1 o2 : list ClientOption) (st : Client * heap) :
  apply_opts (o1 ++ o2) st =
  match apply_opts o1 st with
  | None => None
  | Some st' => apply_opts o2 st'
  end.
Proof.
  revert st. induction o1 as [|o rest IH]; intros st; simpl; [reflexivity|].
  destruct (o st); [apply IH | reflexivity].
Qed.

(** Options run in order: [NewClientWithOptions] with [o1 ++ o2] is
    [NewClientWithOptions] with [o1] followed by the options [o2]. *)
Theorem NewClientWithOptions_app (key : string) (o1 o2 : list ClientOption)
  (h : heap) :
  NewClientWithOptions key (o1 ++ o2) h =
  match NewClientWithOptions key o1 h with
  | None => None
  | Some st => apply_opts o2 st
  end.
Proof. unfold NewClientWithOptions. simpl. apply apply_opts_app. Qed.

(** The last [WithBaseURL u] decides the base URL, even [u = ""]: the
    options do not substitute the default for an empty URL, unlike
    [NewClientWithConfig]. *)
Theorem WithBaseURL_last_wins (key u : string) (opts : list ClientOption)
  (h : heap) (c : Client) (h' : heap) :
  NewClientWithOptions key (opts ++ [WithBaseURL u]) h = Some (c, h') ->
  baseURL c = u.
Proof.
  unfold NewClientWithOptions. simpl. rewrite apply_opts_app.
  destruct (apply_opts opts _) as [[c0 h0]|]; [|discriminate].
  simpl. intros H. injection H as <- _. reflexivity.
Qed.

Lemma WithBaseURL_last_wins_witness :
  NewClientWithOptions "key" ([] ++ [WithBaseURL ""]) [] =
    Some (mkClient "key" "" (Some 0%nat), [mk_http_Client None DefaultTimeout]) /\
  baseURL (mkClient "key" "" (Some 0%nat)) = ""%string.
Proof.
  split; [reflexivity|].
  apply (WithBaseURL_last_wins "key" "" [] [] (mkClient "key" "" (Some 0%nat))
           [mk_http_Client None DefaultTimeout]).
  reflexivity.
Defined.

(** [WithHTTPClient(nil)] followed by [WithTimeout] panics (nil pointer
    dereference), whatever options come before or after. *)
Theorem WithHTTPClient_nil_then_WithTimeout_panics (key : string)
  (o1 o2 : list ClientOption) (t : Z) (h : heap) :
  NewClientWithOptions key (o1 ++ WithHTTPClient None :: WithTimeout t :: o2) h
    = None.
Proof.
  unfold NewClientWithOptions. simpl. rewrite apply_opts_app.
  destruct (apply_opts o1 _) as [[c0 h0]|]; reflexivity.
Qed.

(** [WithTimeout t] without [WithHTTPClient] sets the timeout of the
    client's own fresh [http.Client] and leaves every object the caller
    already had as it was. *)
Theorem WithTimeout_default_client (key : string) (t : Z) (h : heap) :
  exists c h',
    NewClientWithOptions key [WithTimeout t] h = Some (c, h') /\
    client_timeout (c, h') = Some t /\
    firstn (length h) h' = h /\ length h' = S (length h).
Proof.
  unfold NewClientWithOptions, alloc. simpl.
  rewrite nth_error_app2, Nat.sub_diag by lia. simpl.
  do 2 eexists. split; [reflexivity|].
  assert (Hu : forall (h0 : heap) o o', heap_update (h0 ++ [o]) (length h0) o' = h0 ++ [o']).
  { induction h0 as [|x rest IH]; intros o o'; simpl; [reflexivity|].
    rewrite IH. reflexivity. }
  rewrite Hu. simpl.
  rewrite nth_error_app2, Nat.sub_diag by lia. split; [reflexivity|].
  split.
  - rewrite firstn_app, Nat.sub_diag, firstn_all. simpl. apply app_nil_r.
  - rewrite length_app. simpl. lia.
Qed.

(** ** [doRequest] *)

(** [doRequest] fails without calling the transport when the body does
    not marshal ("failed to marshal request body") or the request cannot
    be built ("failed to create request"), and panics without calling it
    when the client's [http.Client] pointer is nil. *)
Theorem doRequest_fails_before_network (E : Env) (c : Client) (h : heap)
  (ctx : Context) (method path key : string) (log : list Request) :
  (forall b err, json_Marshal E b = inr err ->
     doRequest E c h ctx method path (Some b) key log =
       (Err (EWrap "failed to marshal request body" err), log)) /\
  (forall body jbody err,
     (body = None /\ jbody = None \/
      exists b j, body = Some b /\ jbody = Some j /\ json_Marshal E b = inl j) ->
     NewRequest_error E ctx method (baseURL c ++ path)%string = Some err ->
     doRequest E c h ctx method path body key log =
       (Err (EWrap "failed to create request" err), log)) /\
  (forall body,
     (body = None \/ exists b j, body = Some b /\ json_Marshal E b = inl j) ->
     NewRequest_error E ctx method (baseURL c ++ path)%string = None ->
     httpClient c = None ->
     doRequest E c h ctx method path body key log =
       (Panic "nil pointer dereference", log)).
Proof.
  unfold doRequest. split; [|split].
  - intros b err Hm. rewrite Hm. reflexivity.
  - intros body jbody err Hb Hn.
    destruct Hb as [[-> ->]|(b & j & -> & -> & Hm)]; [|rewrite Hm];
      rewrite Hn; reflexivity.
  - intros body Hb Hn Hc.
    destruct Hb as [->|(b & j & -> & Hm)]; [|rewrite Hm];
      rewrite Hn, Hc; reflexivity.
Qed.


Lemma doRequest_fails_before_network_witness :
  doRequest env_bad_request demo_client demo_heap demo_ctx "GET POST"
    "/mails/send" (Some demo_request) "" [] =
  (Err (EWrap "failed to create request" (EExt "net/http: invalid method")), []).
Proof.
  apply (proj1 (proj2 (doRequest_fails_before_network env_bad_request demo_client
           demo_heap demo_ctx "GET POST" "/mails/send" "" []))
           (Some demo_request) (Some "{}"%string)).
  - right. exists demo_request, "{}"%string. repeat split.
  - reflexivity.
Defined.

Lemma doRequest_transport (E : Env) (c : Client) (h : heap) (ctx : Context)
  (method path key : string) (b : SendEmailRequest) (j : string) (l : loc)
  (o : http_Client) (log : list Request) :
  json_Marshal E b = inl j ->
  NewRequest_error E ctx method (baseURL c ++ path)%string = None ->
  httpClient c = Some l -> nth_error h l = Some o ->
  doRequest E c h ctx method path (Some b) key log =
  (match transport E o (mkRequest ctx method (baseURL c ++ path)%string (Some j)
                          (request_headers c key)) with
   | inl resp => Ok resp
   | inr err => Err (EWrap "request failed" err)
   end,
   log ++ [mkRequest ctx method (baseURL c ++ path)%string (Some j)
             (request_headers c key)]).
Proof.
  intros Hm Hn Hc Ho. unfold doRequest. rewrite Hm, Hn, Hc, Ho.
  unfold bind, http_Do. simpl.
  destruct (transport E o _); reflexivity.
Qed.

(** When the body marshals to [j] and the client points to the object
    [o], [doRequest] hands the transport [o] exactly one request: the
    given method, the URL [baseURL ++ path], the body [j], the caller's
    context and the headers of [request_headers]; it returns the
    transport's response as it is, and a transport error wrapped as
    "request failed". *)
Theorem doRequest_dispatch (E : Env) (c : Client) (h : heap) (ctx : Context)
  (method path key : string) (b : SendEmailRequest) (j : string) (l : loc)
  (o : http_Client) (log : list Request) :
  json_Marshal E b = inl j ->
  NewRequest_error E ctx method (baseURL c ++ path)%string = None ->
  httpClient c = Some l -> nth_error h l = Some o ->
  let r := mkRequest ctx method (baseURL c ++ path)%string (Some j)
                     (request_headers c key) in
  doRequest E c h ctx method path (Some b) key log =
  (match transport E o r with
   | inl resp => Ok resp
   | inr err => Err (EWrap "request failed" err)
   end, log ++ [r]).
Proof.
  intros Hm Hn Hc Ho r.
  exact (doRequest_transport E c h ctx method path key b j l o log Hm Hn Hc Ho).
Qed.

Lemma doRequest_dispatch_witness :
  doRequest (demo_env html_502) demo_client demo_heap demo_ctx "POST"
    "/mails/send" (Some demo_request) "" [] =
  (Ok html_502,
   [mkRequest demo_ctx "POST" "https://api.autosend.com/v1/mails/send"
      (Some "{}"%string) (request_headers demo_client "")]).
Proof.
  apply (doRequest_dispatch (demo_env html_502) demo_client demo_heap demo_ctx
           "POST" "/mails/send" "" demo_request "{}"%string 0%nat
           (mk_http_Client None DefaultTimeout) []); reflexivity.
Defined.

(** ** [SendEmailWithIdempotency] *)



(** A 200 response whose body cannot be read gives the read error
    wrapped as "failed to read response body", not a response. *)
Theorem SendEmailWithIdempotency_200_unreadable (E : Env) (c : Client)
  (h : heap) (ctx : Context) (req : option SendEmailRequest) (key : string)
  (log log1 : list Request) (resp : Response) (err : GoError) :
  validateSendEmailRequest req = None ->
  doRequest E c h ctx "POST" "/mails/send" req key log = (Ok resp, log1) ->
  resp_StatusCode resp = 200 -> resp_Body resp = inr err ->
  SendEmailWithIdempotency E c h ctx req key log =
    (Err (EWrap "failed to read response body" err), log1).
Proof.
  intros Hv Hd Hst Hb.
  rewrite (SendEmailWithIdempotency_response _ _ _ _ _ _ _ _ _ Hv Hd).
  rewrite Hst, Hb. reflexivity.
Qed.


Lemma SendEmailWithIdempotency_200_unreadable_witness :
  fst (SendEmailWithIdempotency (demo_env ok_200_unreadable) demo_client
         demo_heap demo_ctx (Some demo_request) "" []) =
  Err (EWrap "failed to read response body" (EExt "unexpected EOF")).
Proof.
  rewrite (SendEmailWithIdempotency_200_unreadable (demo_env ok_200_unreadable)
             demo_client demo_heap demo_ctx (Some demo_request) "" []
             (snd (doRequest (demo_env ok_200_unreadable) demo_client demo_heap
                     demo_ctx "POST" "/mails/send" (Some demo_request) "" []))
             ok_200_unreadable (EExt "unexpected EOF")); reflexivity.
Defined.

(** ** [APIError.Error] *)

Lemma append_empty_r (s : string) : (s ++ "")%string = s.
Proof. induction s as [|c s IH]; simpl; [reflexivity | rewrite IH; reflexivity]. Qed.

(** The text of an [APIError] always starts with
    "autosend API error (status <code>): <message>". *)
Theorem APIError_Error_prefix (a : APIError) :
  exists suffix,
    APIError_Error a =
    ("autosend API error (status " ++ format_d (StatusCode a) ++ "): "
     ++ Message a ++ suffix)%string.
Proof.
  unfold APIError_Error. destruct (Errors a) as [|fe rest].
  - destruct (0 <? RetryAfter a).
    + eexists. reflexivity.
    + exists ""%string. rewrite append_empty_r. reflexivity.
  - eexists. reflexivity.
Qed.

(** Field errors take precedence: with at least one field error the text
    does not depend on [RetryAfter]; without field errors a [RetryAfter]
    that is not positive is not mentioned (the text is as for 0). *)
Theorem APIError_Error_precedence (a : APIError) (r : Z) :
  (Errors a <> [] ->
     APIError_Error (mkAPIError (StatusCode a) (Message a) (Errors a) r
                                (RateLimitInfo_ a)) = APIError_Error a) /\
  (RetryAfter a <= 0 ->
     APIError_Error a =
     APIError_Error (mkAPIError (StatusCode a) (Message a) (Errors a) 0
                                (RateLimitInfo_ a))).
Proof.
  unfold APIError_Error. simpl. split.
  - intros Hne. destruct (Errors a); [congruence | reflexivity].
  - intros Hr. destruct (Errors a); [|reflexivity].
    replace (0 <? RetryAfter a) with false by (symmetry; apply Z.ltb_ge; lia).
    reflexivity.
Qed.

Lemma APIError_Error_precedence_witness :
  APIError_Error (mkAPIError 400 "invalid" [("to.email", "invalid format")]%string
                    30 None) =
  APIError_Error (mkAPIError 400 "invalid" [("to.email", "invalid format")]%string
                    0 None).
Proof.
  symmetry.
  apply (proj1 (APIError_Error_precedence
                  (mkAPIError 400 "invalid" [("to.email", "invalid format")]%string
                     0 None) 30)).
  discriminate.
Defined.

(** ** Rate-limit headers with a decimal value *)

Lemma str_app_assoc (s1 s2 s3 : string) :
  ((s1 ++ s2) ++ s3)%string = (s1 ++ (s2 ++ s3))%string.
Proof. induction s1 as [|c s IH]; simpl; [reflexivity | rewrite IH; reflexivity]. Qed.

Lemma string_length_app (s1 s2 : string) :
  String.length (s1 ++ s2)%string = (String.length s1 + String.length s2)%nat.
Proof. induction s1 as [|c s IH]; simpl; [reflexivity | rewrite IH; reflexivity]. Qed.

Lemma atoi_digits_app (s1 s2 : string) (k : Z) :
  atoi_digits (s1 ++ s2)%string k =
  match atoi_digits s1 k with
  | Some m => atoi_digits s2 m
  | None => None
  end.
Proof.
  revert k. induction s1 as [|c s IH]; intros k; simpl; [reflexivity|].
  destruct (digit_val c); [apply IH | reflexivity].
Qed.

Lemma digit_val_of_digit (m : nat) :
  (m < 10)%nat -> digit_val (ascii_of_nat (48 + m)) = Some (Z.of_nat m).
Proof.
  intros Hm.
  do 10 (destruct m as [|m]; [reflexivity|]). lia.
Qed.

Lemma digit_val_range (c : ascii) (d : Z) :
  digit_val c = Some d -> 0 <= d <= 9.
Proof.
  unfold digit_val. destruct (_ && _) eqn:H; [|discriminate].
  intros E. injection E as <-. apply andb_true_iff in H.
  destruct H as [H1 H2]. apply Z.leb_le in H1, H2. lia.
Qed.

Lemma digits_of_nat_spec (fuel n : nat) (acc : string) :
  (n < fuel)%nat ->
  exists d, digits_of_nat fuel n acc = (d ++ acc)%string /\
    (forall k, atoi_digits d k =
               Some (k * 10 ^ Z.of_nat (String.length d) + Z.of_nat n)) /\
    (1 <= String.length d)%nat /\
    (String.length d = 1%nat \/
     10 ^ Z.of_nat (String.length d - 1) <= Z.of_nat n).
Proof.
  revert n acc. induction fuel as [|f IH]; intros n acc Hn; [lia|].
  pose proof (Nat.div_mod n 10 ltac:(lia)) as Hdm.
  pose proof (Nat.mod_upper_bound n 10 ltac:(lia)) as Hr.
  set (q := Nat.div n 10) in *. set (r := Nat.modulo n 10) in *.
  cbn [digits_of_nat]. fold q r.
  destruct (n <? 10)%nat eqn:Hlt.
  - apply Nat.ltb_lt in Hlt.
    exists (String (ascii_of_nat (48 + r)) ""). split; [reflexivity|].
    split; [|split; [cbn [String.length]; lia | left; reflexivity]].
    intros k. cbn [atoi_digits]. rewrite digit_val_of_digit by exact Hr.
    cbn [String.length]. change (Z.of_nat 1) with 1. rewrite Z.pow_1_r.
    f_equal. assert (q = 0%nat) by (unfold q; apply Nat.div_small; lia).
    lia.
  - apply Nat.ltb_ge in Hlt.
    assert (Hq : (q < f)%nat) by (unfold q; apply Nat.Div0.div_lt_upper_bound; lia).
    destruct (IH q (String (ascii_of_nat (48 + r)) acc) Hq)
      as (d' & Heq & Hval & Hlen & Hbound).
    exists (d' ++ String (ascii_of_nat (48 + r)) "")%string.
    rewrite Heq, str_app_assoc. split; [reflexivity|].
    assert (HL : String.length (d' ++ String (ascii_of_nat (48 + r)) "") =
                 S (String.length d')).
    { rewrite string_length_app. cbn [String.length]. lia. }
    rewrite HL. split; [|split; [lia|right]].
    + intros k. rewrite atoi_digits_app, Hval. cbn [atoi_digits].
      rewrite digit_val_of_digit by exact Hr. f_equal.
      rewrite Nat2Z.inj_succ, Z.pow_succ_r by lia. lia.
    + replace (S (String.length d') - 1)%nat with (String.length d') by lia.
      destruct Hbound as [H1|H1].
      * rewrite H1. change (10 ^ Z.of_nat 1) with 10. lia.
      * replace (Z.of_nat (String.length d')) with
          (Z.succ (Z.of_nat (String.length d' - 1))) by lia.
        rewrite Z.pow_succ_r by lia. lia.
Qed.

Lemma atoi_digits_mono (s : string) (k v : Z) :
  0 <= k -> atoi_digits s k = Some v -> k <= v.
Proof.
  revert k. induction s as [|c s IH]; intros k Hk H; simpl in H.
  - injection H as <-. lia.
  - destruct (digit_val c) as [d|] eqn:Hd; [|discriminate].
    apply digit_val_range in Hd.
    specialize (IH (k * 10 + d) ltac:(lia) H). lia.
Qed.

Lemma parseUint_loop_digits (s : string) (k v : Z) :
  0 <= k -> atoi_digits s k = Some v -> v <= maxUint64 ->
  parseUint_loop s k = (v, None).
Proof.
  revert k. induction s as [|c s IH]; intros k Hk H Hv;
    cbn [atoi_digits] in H; cbn [parseUint_loop].
  - injection H as <-. reflexivity.
  - destruct (digit_val c) as [d|] eqn:Hd; [|discriminate].
    apply digit_val_range in Hd.
    pose proof (atoi_digits_mono s (k * 10 + d) v ltac:(lia) H) as Hm.
    assert (Hcut : maxUint64 / 10 + 1 = 1844674407370955162) by reflexivity.
    assert (Hmax : maxUint64 = 18446744073709551615) by reflexivity.
    rewrite Hcut.
    replace (1844674407370955162 <=? k) with false
      by (symmetry; apply Z.leb_gt; lia).
    assert (H64 : 2 ^ 64 = 18446744073709551616) by reflexivity.
    rewrite Z.mod_small by (rewrite H64; lia).
    replace ((k * 10 + d <? k * 10) || (maxUint64 <? k * 10 + d)) with false
      by (symmetry; apply orb_false_iff; split; apply Z.ltb_ge; lia).
    apply IH; [lia | exact H | exact Hv].
Qed.

(** [format_d n] for [n >= 0] is a non-empty digit string of value [n]. *)
Lemma format_d_digits (n : Z) :
  0 <= n ->
  exists c rest, format_d n = String c rest /\
    digit_val c <> None /\
    (forall k, atoi_digits (String c rest) k =
               Some (k * 10 ^ Z.of_nat (String.length (String c rest)) + n)) /\
    (String.length (String c rest) = 1%nat \/
     10 ^ Z.of_nat (String.length (String c rest) - 1) <= n).
Proof.
  intros Hn. unfold format_d.
  replace (n <? 0) with false by (symmetry; apply Z.ltb_ge; lia).
  rewrite Z.abs_eq by exact Hn.
  destruct (digits_of_nat_spec (S (Z.to_nat n)) (Z.to_nat n) "" ltac:(lia))
    as (d & Heq & Hval & Hlen & Hb).
  rewrite Heq, append_empty_r. rewrite Z2Nat.id in Hval, Hb by exact Hn.
  destruct d as [|c rest]; [simpl in Hlen; lia|].
  exists c, rest. split; [reflexivity|]. split; [|split; [exact Hval | exact Hb]].
  intros Hc. specialize (Hval 0). simpl in Hval. rewrite Hc in Hval. discriminate.
Qed.

Lemma ParseInt_format_d (n : Z) :
  0 <= n < 2 ^ 63 -> ParseInt (format_d n) = (n, None).
Proof.
  intros Hn. destruct (format_d_digits n ltac:(lia))
    as (c & rest & Heq & Hc & Hval & _).
  rewrite Heq. unfold ParseInt.
  destruct (Ascii.eqb c "+"%char) eqn:Hp;
    [apply Ascii.eqb_eq in Hp; subst c; exfalso; apply Hc; reflexivity|].
  destruct (Ascii.eqb c "-"%char) eqn:Hm;
    [apply Ascii.eqb_eq in Hm; subst c; exfalso; apply Hc; reflexivity|].
  unfold ParseUint.
  rewrite (parseUint_loop_digits (String c rest) 0 n) by
    (try rewrite Hval; try reflexivity; unfold maxUint64; lia).
  replace (negb false && (2 ^ 63 <=? n)) with false
    by (symmetry; simpl; apply Z.leb_gt; lia).
  reflexivity.
Qed.

Lemma Atoi_format_d (n : Z) :
  0 <= n < 10 ^ 18 -> Atoi (format_d n) = (n, None).
Proof.
  intros Hn. destruct (format_d_digits n ltac:(lia))
    as (c & rest & Heq & Hc & Hval & Hb).
  rewrite Heq. unfold Atoi.
  assert (Hlen : (String.length (String c rest) < 19)%nat).
  { destruct Hb as [H1|H1]; [lia|].
    destruct (Nat.lt_ge_cases (String.length (String c rest)) 19) as [Hl|Hl];
      [exact Hl|].
    assert (10 ^ 18 <= 10 ^ Z.of_nat (String.length (String c rest) - 1))
      by (apply Z.pow_le_mono_r; lia).
    lia. }
  replace ((0 <? String.length (String c rest))%nat &&
           (String.length (String c rest) <? 19)%nat) with true
    by (symmetry; apply andb_true_iff; split; apply Nat.ltb_lt;
        [simpl; lia | exact Hlen]).
  destruct (Ascii.eqb c "-"%char) eqn:Hm;
    [apply Ascii.eqb_eq in Hm; subst c; exfalso; apply Hc; reflexivity|].
  destruct (Ascii.eqb c "+"%char) eqn:Hp;
    [apply Ascii.eqb_eq in Hp; subst c; exfalso; apply Hc; reflexivity|].
  simpl orb. simpl andb. rewrite Hval. reflexivity.
Qed.

(** A rate-limit header whose value is the decimal text of [n] gives [n]:
    for X-RateLimit-Limit and X-RateLimit-Remaining when [0 <= n < 10^18]
    ([Atoi]'s fast path), for X-RateLimit-Reset when [0 <= n < 2^63]. *)
Theorem parseRateLimitHeaders_decimal (h : Header) (n : Z) :
  (Header_Get h "X-RateLimit-Limit" = format_d n -> 0 <= n < 10 ^ 18 ->
     Limit (parseRateLimitHeaders h) = n) /\
  (Header_Get h "X-RateLimit-Remaining" = format_d n -> 0 <= n < 10 ^ 18 ->
     Remaining (parseRateLimitHeaders h) = n) /\
  (Header_Get h "X-RateLimit-Reset" = format_d n -> 0 <= n < 2 ^ 63 ->
     Reset (parseRateLimitHeaders h) = n).
Proof.
  assert (Hne : 0 <= n -> String.eqb (format_d n) "" = false).
  { intros H0. destruct (format_d_digits n H0) as (c & rest & -> & _).
    reflexivity. }
  unfold parseRateLimitHeaders, parse_field. simpl.
  split; [|split]; intros Hg Hr; rewrite Hg, Hne by lia;
    [rewrite Atoi_format_d | rewrite Atoi_format_d | rewrite ParseInt_format_d];
    auto.
Qed.


Lemma parseRateLimitHeaders_decimal_witness :
  Limit (parseRateLimitHeaders (resp_Header spec_429)) = 50.
Proof.
  apply (proj1 (parseRateLimitHeaders_decimal (resp_Header spec_429) 50)).
  - vm_compute. reflexivity.
  - lia.
Defined.

(** ** The caller [sendEmailWithRetry] (unnamed/part_002) *)

Lemma calls_of_app (t1 t2 : list RetryEvent) :
  calls_of (t1 ++ t2) = calls_of t1 ++ calls_of t2.
Proof. unfold calls_of. apply flat_map_app. Qed.

Lemma attempts_shift (a : Z) (k : nat) :
  a :: map (fun i => a + 1 + Z.of_nat i) (seq 0 k) =
  map (fun i => a + Z.of_nat i) (seq 0 (S k)).
Proof.
  simpl. f_equal; [lia|].
  rewrite <- seq_shift, map_map. apply map_ext. intros i. lia.
Qed.

Lemma retry_loop_calls (call : Z -> result SendEmailResponse) (m : Z)
  (fuel : nat) : forall (a : Z) (last : option GoError),
  exists k, (k <= fuel)%nat /\
    calls_of (snd (retry_loop call m a fuel last)) =
    map (fun i => a + Z.of_nat i) (seq 0 k).
Proof.
  induction fuel as [|f IH]; intros a last.
  - exists 0%nat. split; reflexivity.
  - cbn [retry_loop].
    destruct (a <? m); [|exists 0%nat; split; [lia | reflexivity]].
    destruct (call a) as [resp|err|msg];
      [exists 1%nat; split; [lia | simpl; f_equal; lia] |
      | exists 1%nat; split; [lia | simpl; f_equal; lia]].
    destruct (IH (a + 1) (Some err)) as (k & Hk & Hc).
    destruct (retry_loop call m (a + 1) f (Some err)) as [res tr] eqn:Hr.
    simpl in Hc.
    assert (Hcont : forall sl, calls_of sl = [] ->
              exists k', (k' <= S f)%nat /\
                calls_of (CallSendEmail a :: sl ++ tr) =
                map (fun i => a + Z.of_nat i) (seq 0 k')).
    { intros sl Hsl. exists (S k). split; [lia|].
      change (CallSendEmail a :: sl ++ tr) with ([CallSendEmail a] ++ sl ++ tr).
      rewrite !calls_of_app, Hsl, Hc. simpl. apply attempts_shift. }
    assert (Hstop : exists k', (k' <= S f)%nat /\
              calls_of [CallSendEmail a] = map (fun i => a + Z.of_nat i) (seq 0 k')).
    { exists 1%nat. split; [lia | simpl; f_equal; lia]. }
    destruct (errors_As_APIError err) as [ap|].
    + destruct (IsRateLimitError ap); [apply Hcont; reflexivity|].
      destruct (IsValidationError ap); [exact Hstop|].
      destruct (IsAuthenticationError ap); [exact Hstop|].
      destruct (IsServerError ap); [apply Hcont; reflexivity | exact Hstop].
    + apply Hcont. destruct (a <? m - 1); reflexivity.
Qed.

(** [sendEmailWithRetry] calls [SendEmail] at most [maxRetries] times, at
    the attempts 0, 1, ... in order; with [maxRetries <= 0] it makes no
    call and returns "max retries exceeded: %!w(<nil>)". *)
Theorem sendEmailWithRetry_calls (call : Z -> result SendEmailResponse)
  (maxRetries : Z) :
  (exists k, (k <= Z.to_nat maxRetries)%nat /\
     calls_of (snd (sendEmailWithRetry call maxRetries)) =
     map Z.of_nat (seq 0 k)) /\
  (maxRetries <= 0 ->
     sendEmailWithRetry call maxRetries =
     (Err (EString "max retries exceeded: %!w(<nil>)"), [])).
Proof.
  split.
  - destruct (retry_loop_calls call maxRetries (Z.to_nat maxRetries) 0 None)
      as (k & Hk & Hc).
    exists k. split; [exact Hk|]. unfold sendEmailWithRetry. rewrite Hc.
    apply map_ext. intros i. lia.
  - intros Hm. unfold sendEmailWithRetry.
    replace (Z.to_nat maxRetries) with 0%nat by lia. reflexivity.
Qed.

Lemma sendEmailWithRetry_calls_witness :
  sendEmailWithRetry (fun _ => Ok (mkSendEmailResponse true "" (mkSendEmailData "" "" 0))) 0
  = (Err (EString "max retries exceeded: %!w(<nil>)"), []).
Proof. apply (proj2 (sendEmailWithRetry_calls _ 0)). lia. Defined.

Lemma retry_loop_persistent (call : Z -> result SendEmailResponse)
  (e : GoError) (Hcall : forall i, call i = Err e)
  (He : errors_As_APIError e = None) (fuel : nat) :
  forall (a : Z) (last : option GoError),
  (1 <= fuel)%nat ->
  retry_loop call (a + Z.of_nat fuel) a fuel last =
    (Err (EWrap "max retries exceeded" e), backoff_trace a fuel).
Proof.
  induction fuel as [|f IH]; intros a last Hf; [lia|].
  cbn [retry_loop].
  replace (a <? a + Z.of_nat (S f)) with true by (symmetry; apply Z.ltb_lt; lia).
  rewrite Hcall, He.
  destruct f as [|f'].
  - replace (a <? a + Z.of_nat 1 - 1) with false by (symmetry; apply Z.ltb_ge; lia).
    reflexivity.
  - replace (a <? a + Z.of_nat (S (S f')) - 1) with true
      by (symmetry; apply Z.ltb_lt; lia).
    specialize (IH (a + 1) (Some e) ltac:(lia)).
    replace (a + 1 + Z.of_nat (S f')) with (a + Z.of_nat (S (S f'))) in IH by lia.
    rewrite IH. reflexivity.
Qed.

(** An error that is not an [APIError] (such as a local validation
    failure of [SendEmail]) is retried at every attempt: with
    [maxRetries = n >= 1] and every call failing with that error, the
    whole trace is [n] calls at the attempts 0 .. n-1 with a sleep of
    1 s, 2 s, 4 s, ... after each call but the last, and the result is
    "max retries exceeded" wrapping the error. *)
Theorem sendEmailWithRetry_retries_plain_errors
  (call : Z -> result SendEmailResponse) (e : GoError) (n : nat) :
  (forall i, call i = Err e) -> errors_As_APIError e = None -> (1 <= n)%nat ->
  sendEmailWithRetry call (Z.of_nat n) =
    (Err (EWrap "max retries exceeded" e), backoff_trace 0 n).
Proof.
  intros Hcall He Hn. unfold sendEmailWithRetry. rewrite Nat2Z.id.
  exact (retry_loop_persistent call e Hcall He n 0 None Hn).
Qed.

Lemma sendEmailWithRetry_retries_plain_errors_witness :
  sendEmailWithRetry (fun _ => invalid_request_outcome) 3 =
    (Err (EWrap "max retries exceeded" (EString "to.email is required")),
     [CallSendEmail 0; Sleep Second; CallSendEmail 1; Sleep (2 * Second);
      CallSendEmail 2]).
Proof.
  apply (sendEmailWithRetry_retries_plain_errors (fun _ => invalid_request_outcome)
           (EString "to.email is required") 3).
  - intros i. reflexivity.
  - reflexivity.
  - lia.
Defined.





